(** * Wolf: the paired-client and app store, and the stream session

    A shallow embedding of [src/moonlight-server/state/config.hpp] (namespace
    [state]) and of the event and session declarations of
    [wolf::core::events], with the properties the specification states about
    them.

    Conventions.  An [immer::atom<T>] is a cell holding the current immutable
    snapshot; [load] reads it.  An [immer::vector] snapshot is a [list], in
    insertion order.  A C++ iterator into a snapshot is its offset from
    [begin()], so that [end()] is the length of the snapshot.  A thrown
    exception is the [Throws] outcome.  A [std::shared_ptr] to a mutable cell
    is an address in an explicit heap. *)

From Stdlib Require Import ZArith NArith List String Bool Lia Sorted.
From stdpp Require Import base option list gmap strings.
Import ListNotations.

Local Open Scope string_scope.
Local Open Scope list_scope.

(** ** Library types used by the sources *)

(** [immer::atom<T>]: [load] returns the snapshot currently held, [update]
    installs the image of the current snapshot. *)
Record atom (A : Type) : Type := Atom { load : A }.
Arguments Atom {A} _.
Arguments load {A} _.

Definition update {A : Type} (a : atom A) (f : A -> A) : atom A :=
  Atom (f (load a)).

(** [std::find_if(first, last, pred)]: the position of the first element that
    satisfies [pred], or the position one past the last element. *)
Fixpoint find_if {A : Type} (pred : A -> bool) (l : list A) : nat :=
  match l with
  | [] => 0
  | x :: rest => if pred x then 0 else S (find_if pred rest)
  end.

(** [std::find_if] with a predicate that writes to the log: the iterator,
    and the lines the calls of the predicate wrote, in call order.  The
    search stops at the first element that satisfies the predicate. *)
Fixpoint find_if_logged {A L : Type} (pred : A -> bool * list L) (l : list A) : nat * list L :=
  match l with
  | [] => (0, [])
  | x :: rest =>
      let '(found, lines) := pred x in
      if found then (0, lines)
      else let '(it, later) := find_if_logged pred rest in (S it, lines ++ later)
  end.

(** The levels of [helpers/logger.hpp] that the sources use, and a line of
    the log. *)
Module logs.
Inductive level : Type := trace | info | error.
Definition line : Type := level * string.
Definition log (l : level) (message : string) : list line := [(l, message)].
End logs.

(** Exceptions thrown by the sources, and the outcome of a call that may
    throw. *)
Inductive exception : Type :=
  | runtime_error (what : string).

Inductive outcome (A : Type) : Type :=
  | Returns (a : A)
  | Throws (e : exception).
Arguments Returns {A} _.
Arguments Throws {A} _.

(** The [x509] wrappers over OpenSSL that [config.hpp] calls.  The
    cryptographic library is an external collaborator: the development is
    parametric in it. *)
Class X509 : Type := {
  x509_ptr : Type;
  cert_from_string : string -> x509_ptr;
  verification_error : x509_ptr -> x509_ptr -> option string
}.

(** ** Data model *)

Module moonlight.

(** Modelled from the spec: [moonlight::App] is declared in
    [moonlight/data-structures.hpp], which is not among the sources. *)
Record App : Type := {
  title : string;
  id : string;
  support_hdr : bool
}.

(** Modelled from the spec: [moonlight::DisplayMode], declared in the same
    absent header. *)
Record DisplayMode : Type := {
  width : Z;
  height : Z;
  refreshRate : Z
}.

(** [moonlight::control::pkts::CONTROLLER_TYPE], with the enumerators that
    [state::get_controller_type] returns. *)
Inductive CONTROLLER_TYPE : Type := XBOX | PS | NINTENDO | AUTO.

End moonlight.

(** The device classes of [core/input.hpp] and [core/virtual-display.hpp] are
    not among the sources: a device is represented by the handle of its
    device node. *)
Module input.
Inductive Mouse : Type := mk_Mouse (handle : N).
Inductive Keyboard : Type := mk_Keyboard (handle : N).
Inductive XboxOneJoypad : Type := mk_XboxOneJoypad (handle : N).
Inductive SwitchJoypad : Type := mk_SwitchJoypad (handle : N).
Inductive PS5Joypad : Type := mk_PS5Joypad (handle : N).
Inductive PenTablet : Type := mk_PenTablet (handle : N).
Inductive TouchScreen : Type := mk_TouchScreen (handle : N).
End input.

Module virtual_display.
Inductive WaylandMouse : Type := mk_WaylandMouse (handle : N).
Inductive WaylandKeyboard : Type := mk_WaylandKeyboard (handle : N).
Inductive WaylandState : Type := mk_WaylandState (handle : N).
(** [wl_state_ptr] is a shared pointer: [None] is the null pointer a
    default-constructed one holds. *)
Definition wl_state_ptr : Type := option WaylandState.
End virtual_display.

(** *** [namespace wolf::core::events] *)

Module events.

(** Modelled from the spec: the two runner variants behind
    [std::shared_ptr<Runner>], each reduced to its invocation. *)
Inductive Runner : Type :=
  | RunProcess (run_cmd : string)
  | RunDocker (image : string).

Record App : Type := {
  base : moonlight.App;
  h264_gst_pipeline : string;
  hevc_gst_pipeline : string;
  av1_gst_pipeline : string;
  render_node : string;
  opus_gst_pipeline : string;
  start_virtual_compositor : bool;
  runner : Runner;
  joypad_type : moonlight.CONTROLLER_TYPE
}.

(** [std::variant] alternatives, one constructor each. *)
Inductive MouseTypes : Type :=
  | Mouse_input (m : input.Mouse)
  | Mouse_wayland (m : virtual_display.WaylandMouse).

Inductive KeyboardTypes : Type :=
  | Keyboard_input (k : input.Keyboard)
  | Keyboard_wayland (k : virtual_display.WaylandKeyboard).

Inductive JoypadTypes : Type :=
  | Joypad_xbox (j : input.XboxOneJoypad)
  | Joypad_switch (j : input.SwitchJoypad)
  | Joypad_ps5 (j : input.PS5Joypad).

(** [immer::map<int, std::shared_ptr<JoypadTypes>>], keyed by controller
    number. *)
Abbreviation JoypadList := (gmap Z JoypadTypes).

Record StopStreamEvent : Type := { stop_session_id : N }.

(** The objects that a [StreamSession] reaches through its shared
    pointers.  Copies of a session share them, so they live in a heap and
    the session holds their addresses. *)
Inductive cell : Type :=
  | wayland_cell (display : virtual_display.wl_state_ptr)
  | mouse_cell (m : option MouseTypes)
  | keyboard_cell (k : option KeyboardTypes)
  | joypads_cell (j : JoypadList)
  | pen_tablet_cell (p : option input.PenTablet)
  | touch_screen_cell (t : option input.TouchScreen).

Abbreviation heap := (list cell).

(** [std::make_shared<T>(v)]: a fresh object, at the next free address. *)
Definition make_shared (v : cell) (h : heap) : nat * heap :=
  (length h, h ++ [v]).

(** [session_id] is a [std::size_t] and the ports are [unsigned short]:
    their values are kept in [N].  [event_bus] is the address of the bus
    instance. *)
Record StreamSession : Type := {
  display_mode : moonlight.DisplayMode;
  audio_channel_count : Z;
  event_bus : nat;
  app : App;
  app_state_folder : string;
  aes_key : string;
  aes_iv : string;
  session_id : N;
  ip : string;
  video_stream_port : N;
  audio_stream_port : N;
  wayland_display : nat;
  mouse : nat;
  keyboard : nat;
  joypads : nat;
  pen_tablet : nat;
  touch_screen : nat
}.

(** The members without a default initialiser, which the code that builds
    a session supplies. *)
Record StreamSession_args : Type := {
  arg_display_mode : moonlight.DisplayMode;
  arg_audio_channel_count : Z;
  arg_event_bus : nat;
  arg_app : App;
  arg_app_state_folder : string;
  arg_aes_key : string;
  arg_aes_iv : string;
  arg_session_id : N;
  arg_ip : string;
  arg_video_stream_port : N;
  arg_audio_stream_port : N
}.

(** Construction of a [StreamSession]: the default member initialisers run
    in declaration order, each [std::make_shared] of a value-initialised
    object (a null [wl_state_ptr], an empty [std::optional], an empty
    [immer::map]). *)
Definition new_StreamSession (a : StreamSession_args) (h : heap) : StreamSession * heap :=
  let '(wayland_display, h) := make_shared (wayland_cell None) h in
  let '(mouse, h) := make_shared (mouse_cell None) h in
  let '(keyboard, h) := make_shared (keyboard_cell None) h in
  let '(joypads, h) := make_shared (joypads_cell ∅) h in
  let '(pen_tablet, h) := make_shared (pen_tablet_cell None) h in
  let '(touch_screen, h) := make_shared (touch_screen_cell None) h in
  ({| display_mode := arg_display_mode a;
      audio_channel_count := arg_audio_channel_count a;
      event_bus := arg_event_bus a;
      app := arg_app a;
      app_state_folder := arg_app_state_folder a;
      aes_key := arg_aes_key a;
      aes_iv := arg_aes_iv a;
      session_id := arg_session_id a;
      ip := arg_ip a;
      video_stream_port := arg_video_stream_port a;
      audio_stream_port := arg_audio_stream_port a;
      wayland_display := wayland_display;
      mouse := mouse;
      keyboard := keyboard;
      joypads := joypads;
      pen_tablet := pen_tablet;
      touch_screen := touch_screen |}, h).

(** Reading a cell through the session's pointer: [*session.mouse] and the
    like; [session.wayland_display->load()] and
    [session.joypads->load()] for the two atoms. *)
Definition read_wayland_display (s : StreamSession) (h : heap) : option virtual_display.wl_state_ptr :=
  match h !! wayland_display s with Some (wayland_cell d) => Some d | _ => None end.

Definition read_mouse (s : StreamSession) (h : heap) : option (option MouseTypes) :=
  match h !! mouse s with Some (mouse_cell m) => Some m | _ => None end.

Definition read_keyboard (s : StreamSession) (h : heap) : option (option KeyboardTypes) :=
  match h !! keyboard s with Some (keyboard_cell k) => Some k | _ => None end.

Definition read_joypads (s : StreamSession) (h : heap) : option JoypadList :=
  match h !! joypads s with Some (joypads_cell j) => Some j | _ => None end.

Definition read_pen_tablet (s : StreamSession) (h : heap) : option (option input.PenTablet) :=
  match h !! pen_tablet s with Some (pen_tablet_cell p) => Some p | _ => None end.

Definition read_touch_screen (s : StreamSession) (h : heap) : option (option input.TouchScreen) :=
  match h !! touch_screen s with Some (touch_screen_cell t) => Some t | _ => None end.

(** Modelled from the spec: the code that installs the input devices is not
    among the sources.  A write to an input-device cell is a compare-and-set
    on first use: it installs the device when the cell is empty and is
    ignored otherwise. *)
Inductive device_write : Type :=
  | write_mouse (m : MouseTypes)
  | write_keyboard (k : KeyboardTypes)
  | write_pen_tablet (p : input.PenTablet)
  | write_touch_screen (t : input.TouchScreen).

Definition set_on_first_use (s : StreamSession) (w : device_write) (h : heap) : heap :=
  match w with
  | write_mouse m =>
      match h !! mouse s with
      | Some (mouse_cell None) => <[mouse s := mouse_cell (Some m)]> h
      | _ => h
      end
  | write_keyboard k =>
      match h !! keyboard s with
      | Some (keyboard_cell None) => <[keyboard s := keyboard_cell (Some k)]> h
      | _ => h
      end
  | write_pen_tablet p =>
      match h !! pen_tablet s with
      | Some (pen_tablet_cell None) => <[pen_tablet s := pen_tablet_cell (Some p)]> h
      | _ => h
      end
  | write_touch_screen t =>
      match h !! touch_screen s with
      | Some (touch_screen_cell None) => <[touch_screen s := touch_screen_cell (Some t)]> h
      | _ => h
      end
  end.

(** The writes of a session's lifetime, oldest first. *)
Definition run_writes (s : StreamSession) (ws : list device_write) (h : heap) : heap :=
  fold_left (fun h w => set_on_first_use s w h) ws h.

(** The device each kind of write carries, when it is of that kind. *)
Definition mouse_of (w : device_write) : option MouseTypes :=
  match w with write_mouse m => Some m | _ => None end.
Definition keyboard_of (w : device_write) : option KeyboardTypes :=
  match w with write_keyboard k => Some k | _ => None end.
Definition pen_tablet_of (w : device_write) : option input.PenTablet :=
  match w with write_pen_tablet p => Some p | _ => None end.
Definition touch_screen_of (w : device_write) : option input.TouchScreen :=
  match w with write_touch_screen t => Some t | _ => None end.

(** The first device of a kind in a sequence of writes. *)
Fixpoint first_of {A : Type} (proj : device_write -> option A) (ws : list device_write) : option A :=
  match ws with
  | [] => None
  | w :: rest => match proj w with Some a => Some a | None => first_of proj rest end
  end.

(** The alternatives of [EventsVariant], in the order of the declaration,
    and the [event_type] member that each of these structs initialises. *)
Inductive event_alternative : Type :=
  | alt_PlugDeviceEvent
  | alt_PairSignal
  | alt_UnplugDeviceEvent
  | alt_StreamSession
  | alt_VideoSession
  | alt_AudioSession
  | alt_IDRRequestEvent
  | alt_PauseStreamEvent
  | alt_ResumeStreamEvent
  | alt_StopStreamEvent
  | alt_RTPVideoPingEvent
  | alt_RTPAudioPingEvent.

Definition event_type (e : event_alternative) : string :=
  match e with
  | alt_PlugDeviceEvent => "plug_device"
  | alt_PairSignal => "pair"
  | alt_UnplugDeviceEvent => "unplug_device"
  | alt_StreamSession => "stream_session"
  | alt_VideoSession => "video_session"
  | alt_AudioSession => "audio_session"
  | alt_IDRRequestEvent => "idr_request"
  | alt_PauseStreamEvent => "pause_stream"
  | alt_ResumeStreamEvent => "resume_stream"
  | alt_StopStreamEvent => "stop_stream"
  | alt_RTPVideoPingEvent => "rtp_video_ping"
  | alt_RTPAudioPingEvent => "rtp_audio_ping"
  end.

(** The addresses a session holds, in declaration order. *)
Definition cell_pointers (s : StreamSession) : list nat :=
  [wayland_display s; mouse s; keyboard s; joypads s; pen_tablet s; touch_screen s].

(** The six cells of a newly constructed session, in declaration order. *)
Definition fresh_cells : heap :=
  [wayland_cell None; mouse_cell None; keyboard_cell None;
   joypads_cell ∅; pen_tablet_cell None; touch_screen_cell None].

(** Two writes address the same cell. *)
Definition same_cell (w1 w2 : device_write) : bool :=
  match w1, w2 with
  | write_mouse _, write_mouse _ => true
  | write_keyboard _, write_keyboard _ => true
  | write_pen_tablet _, write_pen_tablet _ => true
  | write_touch_screen _, write_touch_screen _ => true
  | _, _ => false
  end.

End events.

(** *** [namespace wolf::config] *)

Module config.
(** [wolf::config::ControllerType], with the enumerators that
    [state::get_controller_type] switches over. *)
Inductive ControllerType : Type := XBOX | PS | NINTENDO | AUTO.
End config.

(** *** [namespace state] *)

Module state.

(** Modelled from the spec: [state::PairedClient] is declared in
    [state/data-structures.hpp], which is not among the sources; the fields
    are those of the specification's data model. *)
Record PairedClient : Type := {
  client_id : string;
  client_cert : string;
  app_state_folder : string;
  run_uid : Z;
  run_gid : Z
}.

(** Modelled from the spec: [state::Config] is declared in the same absent
    header.  The two collections are atoms holding immutable snapshots, as
    [cfg.paired_clients->load()] and [cfg.apps->load()] read them; the host
    certificate and key are kept as PEM text. *)
Record Config : Type := {
  hostname : string;
  uuid : string;
  host_cert : string;
  host_key : string;
  support_hevc : bool;
  support_av1 : bool;
  paired_clients : atom (list PairedClient);
  apps : atom (list events.App)
}.

Definition set_paired_clients (cfg : Config) (a : atom (list PairedClient)) : Config :=
  {| hostname := hostname cfg;
     uuid := uuid cfg;
     host_cert := host_cert cfg;
     host_key := host_key cfg;
     support_hevc := support_hevc cfg;
     support_av1 := support_av1 cfg;
     paired_clients := a;
     apps := apps cfg |}.

(** [state::get_app_by_id].  The iterator is dereferenced only when it
    differs from [end()], where the dereference succeeds. *)
Definition get_app_by_id (cfg : Config) (app_id : string) : outcome events.App :=
  let apps := load (apps cfg) in
  let search_result :=
    find_if (fun app => String.eqb (moonlight.id (events.base app)) app_id) apps in
  if negb (Nat.eqb search_result (length apps))
  then match nth_error apps search_result with
       | Some app => Returns app
       | None => Throws (runtime_error "dereferenced a past-the-end iterator")
       end
  else Throws (runtime_error ("Unable to find app with id: " ++ app_id)%string).

(** [state::get_controller_type]. *)
Definition get_controller_type (ctrl_type : config.ControllerType) : moonlight.CONTROLLER_TYPE :=
  match ctrl_type with
  | config.XBOX => moonlight.XBOX
  | config.PS => moonlight.PS
  | config.NINTENDO => moonlight.NINTENDO
  | config.AUTO => moonlight.AUTO
  end.

Section WithX509.
Context `{crypto : X509}.

(** The predicate of [get_client_via_ssl]: the stored certificate is
    parsed and the client certificate is verified against it; a
    verification error is logged and rejects the stored client. *)
Definition paired_cert_verifies (cert : x509_ptr) (pair_client : PairedClient) : bool :=
  let paired_cert := cert_from_string (client_cert pair_client) in
  match verification_error paired_cert cert with
  | Some _ => false
  | None => true
  end.

(** [state::get_client_via_ssl(const Config &, x509::x509_ptr)]. *)
Definition get_client_via_ssl (cfg : Config) (cert : x509_ptr) : option PairedClient :=
  let paired_clients := load (paired_clients cfg) in
  let search_result := find_if (paired_cert_verifies cert) paired_clients in
  if negb (Nat.eqb search_result (length paired_clients))
  then nth_error paired_clients search_result
  else None.

(** [state::get_client_via_ssl(const Config &, const std::string &)]. *)
Definition get_client_via_ssl_string (cfg : Config) (pem : string) : option PairedClient :=
  get_client_via_ssl cfg (cert_from_string pem).

(** The predicate of [get_client_via_ssl] with its effect: on a verification
    error it writes one line at level [trace]. *)
Definition paired_cert_verifies_logged (cert : x509_ptr) (pair_client : PairedClient)
  : bool * list logs.line :=
  let paired_cert := cert_from_string (client_cert pair_client) in
  match verification_error paired_cert cert with
  | Some error =>
      (false, logs.log logs.trace ("X509 certificate verification error: " ++ error)%string)
  | None => (true, [])
  end.

(** [state::get_client_via_ssl(const Config &, x509::x509_ptr)] with the
    lines it writes to the log. *)
Definition get_client_via_ssl_logged (cfg : Config) (cert : x509_ptr)
  : option PairedClient * list logs.line :=
  let paired_clients := load (paired_clients cfg) in
  let '(search_result, lines) :=
    find_if_logged (paired_cert_verifies_logged cert) paired_clients in
  (if negb (Nat.eqb search_result (length paired_clients))
   then nth_error paired_clients search_result
   else None,
   lines).

(** The line that the verification of a stored client against a certificate
    leaves in the log: none when the stored certificate verifies. *)
Definition verification_line (cert : x509_ptr) (stored : PairedClient) : option logs.line :=
  match verification_error (cert_from_string (client_cert stored)) cert with
  | Some error => Some (logs.trace, ("X509 certificate verification error: " ++ error)%string)
  | None => None
  end.

(** Modelled from the spec: how a mutation of the store ends.  [Done]: the
    new snapshot is installed and the state file rewritten; [Rejected]: the
    client is a duplicate and nothing changes; [Transient]: the rewrite of
    the state file failed, the caller sees the error and the snapshot in
    memory remains unchanged. *)
Inductive store_result : Type := Done | Rejected | Transient.

(** Modelled from the spec: [state::pair] is only declared in
    [config.hpp].  It atomically inserts the client into the paired
    clients and persists; a client whose certificate an already stored one
    verifies is a duplicate and is rejected.  [persisted] tells whether the
    atomic rewrite of the state file (write to a temporary file, then
    rename) succeeds; when it fails the mutation fails with it. *)
Definition pair (persisted : bool) (cfg : Config) (client : PairedClient)
  : store_result * Config :=
  match get_client_via_ssl_string cfg (client_cert client) with
  | Some _ => (Rejected, cfg)
  | None =>
      if persisted
      then (Done,
            set_paired_clients cfg
              (update (paired_clients cfg) (fun clients => clients ++ [client])))
      else (Transient, cfg)
  end.

(** Modelled from the spec: [state::unpair] is only declared in
    [config.hpp].  It atomically removes the stored clients that match
    the client's certificate, by the X.509 verification with which
    [get_client_via_ssl] matches, and persists; [persisted] is as for
    [pair]. *)
Definition unpair (persisted : bool) (cfg : Config) (client : PairedClient)
  : store_result * Config :=
  let cert := cert_from_string (client_cert client) in
  if persisted
  then (Done,
        set_paired_clients cfg
          (update (paired_clients cfg)
             (List.filter (fun stored => negb (paired_cert_verifies cert stored)))))
  else (Transient, cfg).

End WithX509.

End state.

(** *** The session registry *)

Module registry.

(** Modelled from the spec: the [launch] entry point and the Session
    Registry are not among the sources.  [launch] resolves the paired client
    by certificate ([Unauthorized] if absent), resolves the app by id
    ([NotFound] if absent), allocates the next [session_id] of a
    monotonically increasing 64-bit counter, constructs the [StreamSession] with
    the key, IV and ports it is given, enters it into the registry and
    publishes it.  A [StopStreamEvent] drops the entry of its session. *)
Inductive launch_error : Type := Unauthorized | NotFound.

Record LaunchRequest : Type := {
  req_app_id : string;
  req_client_cert : string;
  req_ip : string;
  req_display_mode : moonlight.DisplayMode;
  req_audio_channel_count : Z;
  req_aes_key : string;
  req_aes_iv : string;
  req_video_stream_port : N;
  req_audio_stream_port : N
}.

(** Modelled from the spec: the registry maps [session_id] to the session it
    owns; [next_session_id] is the allocation counter, a [std::size_t] as the
    ids it hands out, [cells] the heap of
    the sessions' shared cells and [published] the sessions published so far,
    oldest first. *)
Record Registry : Type := {
  next_session_id : N;
  entries : gmap N events.StreamSession;
  cells : events.heap;
  bus : nat;
  published : list events.StreamSession
}.

(** [session_id] is a [std::size_t]: the counter wraps around at [2^64]. *)
Definition size_t_modulus : N := 2 ^ 64.

Definition empty_registry (bus : nat) : Registry :=
  {| next_session_id := 0;
     entries := ∅;
     cells := [];
     bus := bus;
     published := [] |}.

(** Modelled from the spec: [launch], steps 1 to 6 of its description; the
    two lookups are the ones of [config.hpp]. *)
Definition launch `{crypto : X509} (cfg : state.Config) (req : LaunchRequest) (r : Registry)
  : (launch_error + events.StreamSession) * Registry :=
  match state.get_client_via_ssl_string cfg (req_client_cert req) with
  | None => (inl Unauthorized, r)
  | Some client =>
      match state.get_app_by_id cfg (req_app_id req) with
      | Throws _ => (inl NotFound, r)
      | Returns app =>
          let sid := next_session_id r in
          let '(session, h) :=
            events.new_StreamSession
              {| events.arg_display_mode := req_display_mode req;
                 events.arg_audio_channel_count := req_audio_channel_count req;
                 events.arg_event_bus := bus r;
                 events.arg_app := app;
                 events.arg_app_state_folder := state.app_state_folder client;
                 events.arg_aes_key := req_aes_key req;
                 events.arg_aes_iv := req_aes_iv req;
                 events.arg_session_id := sid;
                 events.arg_ip := req_ip req;
                 events.arg_video_stream_port := req_video_stream_port req;
                 events.arg_audio_stream_port := req_audio_stream_port req |}
              (cells r) in
          (inr session,
           {| next_session_id := ((sid + 1) mod size_t_modulus)%N;
              entries := <[sid := session]> (entries r);
              cells := h;
              bus := bus r;
              published := published r ++ [session] |})
      end
  end.

(** Modelled from the spec: on a [StopStreamEvent] the registry drops the
    entry of the session; the counter is left as it is. *)
Definition stop (ev : events.StopStreamEvent) (r : Registry) : Registry :=
  {| next_session_id := next_session_id r;
     entries := delete (events.stop_session_id ev) (entries r);
     cells := cells r;
     bus := bus r;
     published := published r |}.

Inductive operation : Type :=
  | do_launch (req : LaunchRequest)
  | do_stop (ev : events.StopStreamEvent).

Definition step `{crypto : X509} (cfg : state.Config) (r : Registry) (o : operation) : Registry :=
  match o with
  | do_launch req => snd (launch cfg req r)
  | do_stop ev => stop ev r
  end.

Definition run `{crypto : X509} (cfg : state.Config) (ops : list operation) (r : Registry) : Registry :=
  fold_left (step cfg) ops r.

(** Every [session_id] allocated so far, in allocation order. *)
Definition allocated (r : Registry) : list N :=
  map events.session_id (published r).

(** The invariant of the registry: with [n] sessions published, the ids
    allocated are those of the launches [0] to [n - 1], in order, and the
    counter holds the id of launch [n]. *)
Definition counts_launches (r : Registry) : Prop :=
  allocated r =
    map (fun k => (N.of_nat k mod size_t_modulus)%N)
        (seq 0 (length (published r))) /\
  next_session_id r =
    (N.of_nat (length (published r)) mod size_t_modulus)%N.

End registry.

(** ** Sample data *)

Module sample.

(** Modelled from the spec: an instance of the [x509] wrappers, whose
    implementation is not among the sources, for self-signed client
    certificates: a parsed certificate is represented by its PEM text and
    verifies against itself only. *)
Definition self_signed : X509 :=
  {| x509_ptr := string;
     cert_from_string := fun pem => pem;
     verification_error := fun paired_cert untrusted_cert =>
       if String.eqb paired_cert untrusted_cert then None
       else Some "unable to get local issuer certificate" |}.

Definition alice : state.PairedClient :=
  {| state.client_id := "alice";
     state.client_cert := "-----BEGIN CERTIFICATE-----A";
     state.app_state_folder := "/etc/wolf/alice";
     state.run_uid := 1000;
     state.run_gid := 1000 |}.

Definition bob : state.PairedClient :=
  {| state.client_id := "bob";
     state.client_cert := "-----BEGIN CERTIFICATE-----B";
     state.app_state_folder := "/etc/wolf/bob";
     state.run_uid := 1000;
     state.run_gid := 1000 |}.

(** Modelled from the spec: an instance of the [x509] wrappers for
    certificates issued by one authority: verification succeeds against the
    stored certificate of the authority and fails, for want of the issuer,
    against any other stored certificate. *)
Definition issued_by_ca : X509 :=
  {| x509_ptr := string;
     cert_from_string := fun pem => pem;
     verification_error := fun paired_cert untrusted_cert =>
       if String.eqb paired_cert "-----BEGIN CERTIFICATE-----CA" then None
       else Some "unable to get local issuer certificate" |}.

Definition leaf : state.PairedClient :=
  {| state.client_id := "leaf";
     state.client_cert := "-----BEGIN CERTIFICATE-----LEAF";
     state.app_state_folder := "/etc/wolf/leaf";
     state.run_uid := 1000;
     state.run_gid := 1000 |}.

(** A second record that carries bob's certificate. *)
Definition robert : state.PairedClient :=
  {| state.client_id := "robert";
     state.client_cert := "-----BEGIN CERTIFICATE-----B";
     state.app_state_folder := "/etc/wolf/robert";
     state.run_uid := 1001;
     state.run_gid := 1001 |}.

Definition app_with_id (app_id : string) : events.App :=
  {| events.base :=
       {| moonlight.title := "Desktop"; moonlight.id := app_id; moonlight.support_hdr := false |};
     events.h264_gst_pipeline := "h264";
     events.hevc_gst_pipeline := "hevc";
     events.av1_gst_pipeline := "av1";
     events.render_node := "/dev/dri/renderD128";
     events.opus_gst_pipeline := "opus";
     events.start_virtual_compositor := true;
     events.runner := events.RunProcess "sh -c true";
     events.joypad_type := moonlight.AUTO |}.

Definition cfg (clients : list state.PairedClient) (apps : list events.App) : state.Config :=
  {| state.hostname := "wolf";
     state.uuid := "0a0b0c0d";
     state.host_cert := "cert.pem";
     state.host_key := "key.pem";
     state.support_hevc := true;
     state.support_av1 := false;
     state.paired_clients := Atom clients;
     state.apps := Atom apps |}.

Definition request (app_id pem : string) : registry.LaunchRequest :=
  {| registry.req_app_id := app_id;
     registry.req_client_cert := pem;
     registry.req_ip := "192.168.1.2";
     registry.req_display_mode :=
       {| moonlight.width := 1920; moonlight.height := 1080; moonlight.refreshRate := 60 |};
     registry.req_audio_channel_count := 2;
     registry.req_aes_key := "0123456789abcdef";
     registry.req_aes_iv := "fedcba9876543210";
     registry.req_video_stream_port := 48100;
     registry.req_audio_stream_port := 48200 |}.

Definition session_args : events.StreamSession_args :=
  {| events.arg_display_mode :=
       {| moonlight.width := 1920; moonlight.height := 1080; moonlight.refreshRate := 60 |};
     events.arg_audio_channel_count := 2;
     events.arg_event_bus := 0;
     events.arg_app := app_with_id "1";
     events.arg_app_state_folder := "/etc/wolf/alice";
     events.arg_aes_key := "0123456789abcdef";
     events.arg_aes_iv := "fedcba9876543210";
     events.arg_session_id := 7;
     events.arg_ip := "192.168.1.2";
     events.arg_video_stream_port := 48100;
     events.arg_audio_stream_port := 48200 |}.

Definition first_mouse : events.MouseTypes := events.Mouse_input (input.mk_Mouse 11).
Definition second_mouse : events.MouseTypes :=
  events.Mouse_wayland (virtual_display.mk_WaylandMouse 12).

Definition writes : list events.device_write :=
  [events.write_keyboard (events.Keyboard_input (input.mk_Keyboard 3));
   events.write_mouse first_mouse;
   events.write_mouse second_mouse].

End sample.

(** * Properties *)

(** ** [std::find_if] *)

Lemma find_if_le {A : Type} (pred : A -> bool) (l : list A) :
  find_if pred l <= length l.
Proof.
  induction l as [|x rest IH]; simpl; [lia|].
  destruct (pred x); lia.
Qed.

(** The iterator that [find_if] returns dereferences to [x] exactly when [x]
    is the first element that satisfies the predicate. *)
Lemma find_if_found {A : Type} (pred : A -> bool) (l : list A) (x : A) :
  nth_error l (find_if pred l) = Some x <->
  exists before after,
    l = before ++ x :: after /\ pred x = true /\
    Forall (fun y => pred y = false) before.
Proof.
  induction l as [|a rest IH]; simpl.
  - split; [discriminate|].
    intros (before & after & Hl & _). destruct before; discriminate.
  - destruct (pred a) eqn:Ha; simpl.
    + split.
      * intros [= <-]. exists [], rest. auto.
      * intros (before & after & Hl & Hx & Hbefore).
        destruct before as [|b before]; simpl in Hl; injection Hl as -> Hrest.
        -- reflexivity.
        -- inversion Hbefore; congruence.
    + rewrite IH. split.
      * intros (before & after & -> & Hx & Hbefore).
        exists (a :: before), after. auto.
      * intros (before & after & Hl & Hx & Hbefore).
        destruct before as [|b before]; simpl in Hl; injection Hl as -> Hrest.
        -- congruence.
        -- exists before, after. inversion Hbefore; auto.
Qed.

(** [find_if] returns the past-the-end iterator exactly when no element
    satisfies the predicate. *)
Lemma find_if_end {A : Type} (pred : A -> bool) (l : list A) :
  find_if pred l = length l <-> Forall (fun y => pred y = false) l.
Proof.
  induction l as [|a rest IH]; simpl.
  - split; auto.
  - destruct (pred a) eqn:Ha.
    + split; [discriminate|]. inversion 1; congruence.
    + split.
      * intros [= Hlen]. constructor; [assumption|]. now apply IH.
      * inversion 1; subst. f_equal. now apply IH.
Qed.

(** What the sources do with the iterator: compare it with [end()] and
    dereference it when it differs. *)
Lemma find_if_deref {A : Type} (pred : A -> bool) (l : list A) :
  (if negb (Nat.eqb (find_if pred l) (length l))
   then nth_error l (find_if pred l) else None)
  = nth_error l (find_if pred l).
Proof.
  destruct (Nat.eqb_spec (find_if pred l) (length l)) as [Heq|Hne]; simpl.
  - symmetry. apply nth_error_None. lia.
  - reflexivity.
Qed.

Lemma find_if_deref_None {A : Type} (pred : A -> bool) (l : list A) :
  nth_error l (find_if pred l) = None <-> Forall (fun y => pred y = false) l.
Proof.
  rewrite <- find_if_end, nth_error_None.
  pose proof (find_if_le pred l). lia.
Qed.

(** ** The config store *)

Lemma get_app_by_id_nth (cfg : state.Config) (app_id : string) :
  state.get_app_by_id cfg app_id =
  match nth_error (load (state.apps cfg))
          (find_if (fun app => String.eqb (moonlight.id (events.base app)) app_id)
                   (load (state.apps cfg))) with
  | Some app => Returns app
  | None => Throws (runtime_error ("Unable to find app with id: " ++ app_id)%string)
  end.
Proof.
  unfold state.get_app_by_id.
  set (apps := load (state.apps cfg)).
  set (pred := fun app => String.eqb (moonlight.id (events.base app)) app_id).
  pose proof (find_if_le pred apps) as Hle.
  destruct (Nat.eqb_spec (find_if pred apps) (length apps)) as [Heq|Hne]; simpl.
  - assert (Hnone : nth_error apps (find_if pred apps) = None)
      by (apply nth_error_None; lia).
    now rewrite Hnone.
  - destruct (nth_error apps (find_if pred apps)) eqn:Hnth; [reflexivity|].
    apply nth_error_None in Hnth. lia.
Qed.

(** C3.  [get_app_by_id] returns an app exactly when that app is the first
    one of the apps snapshot whose id equals the given id; it throws exactly
    when no app of the snapshot has that id, and what it throws is the
    not-found error that names the id. *)
Theorem get_app_by_id_spec (cfg : state.Config) (app_id : string) :
  (forall app,
      state.get_app_by_id cfg app_id = Returns app <->
      exists before after,
        load (state.apps cfg) = before ++ app :: after /\
        moonlight.id (events.base app) = app_id /\
        Forall (fun a => moonlight.id (events.base a) <> app_id) before) /\
  ((exists e, state.get_app_by_id cfg app_id = Throws e) <->
   Forall (fun a => moonlight.id (events.base a) <> app_id) (load (state.apps cfg))) /\
  (forall e,
      state.get_app_by_id cfg app_id = Throws e ->
      e = runtime_error ("Unable to find app with id: " ++ app_id)%string).
Proof.
  rewrite get_app_by_id_nth.
  set (apps := load (state.apps cfg)).
  set (pred := fun app => String.eqb (moonlight.id (events.base app)) app_id).
  assert (Hfalse : forall l,
             Forall (fun a => pred a = false) l <->
             Forall (fun a => moonlight.id (events.base a) <> app_id) l).
  { intros l. split; intros Hall; (eapply Forall_impl; [exact Hall|]);
      intros a; unfold pred; simpl; rewrite String.eqb_neq; auto. }
  split; [|split].
  - intros app.
    transitivity (nth_error apps (find_if pred apps) = Some app).
    { destruct (nth_error apps (find_if pred apps)); split; congruence. }
    rewrite find_if_found.
    split; intros (before & after & Hl & Hid & Hbefore);
      exists before, after; (split; [exact Hl|]); split.
    + unfold pred in Hid. now apply String.eqb_eq in Hid.
    + now apply Hfalse.
    + unfold pred. now apply String.eqb_eq.
    + now apply Hfalse.
  - rewrite <- Hfalse, <- find_if_deref_None.
    destruct (nth_error apps (find_if pred apps)) as [found|].
    + split; [intros [e He]; discriminate|discriminate].
    + split; [reflexivity|]. intros _. eexists. reflexivity.
  - intros e. destruct (nth_error apps (find_if pred apps)); congruence.
Qed.

Section ConfigStoreFacts.
Context `{crypto : X509}.

Lemma paired_cert_verifies_true (cert : x509_ptr) (stored : state.PairedClient) :
  state.paired_cert_verifies cert stored = true <->
  verification_error (cert_from_string (state.client_cert stored)) cert = None.
Proof.
  unfold state.paired_cert_verifies.
  destruct (verification_error _ cert); split; congruence.
Qed.

Lemma paired_cert_verifies_false (cert : x509_ptr) (stored : state.PairedClient) :
  state.paired_cert_verifies cert stored = false <->
  verification_error (cert_from_string (state.client_cert stored)) cert <> None.
Proof.
  unfold state.paired_cert_verifies.
  destruct (verification_error _ cert); split; congruence.
Qed.

Lemma get_client_via_ssl_nth (cfg : state.Config) (cert : x509_ptr) :
  state.get_client_via_ssl cfg cert =
  nth_error (load (state.paired_clients cfg))
    (find_if (state.paired_cert_verifies cert) (load (state.paired_clients cfg))).
Proof. unfold state.get_client_via_ssl. apply find_if_deref. Qed.

(** C2.  [get_client_via_ssl] returns a client exactly when that client is
    the first one of the paired-clients snapshot, in the order of the
    snapshot, whose stored certificate verifies against the given
    certificate without a verification error; it returns none exactly when
    every stored client's certificate fails to verify. *)
Theorem get_client_via_ssl_first_match (cfg : state.Config) (cert : x509_ptr) :
  (forall client,
      state.get_client_via_ssl cfg cert = Some client <->
      exists before after,
        load (state.paired_clients cfg) = before ++ client :: after /\
        verification_error (cert_from_string (state.client_cert client)) cert = None /\
        Forall (fun stored =>
                  verification_error (cert_from_string (state.client_cert stored)) cert <> None)
               before) /\
  (state.get_client_via_ssl cfg cert = None <->
   Forall (fun stored =>
             verification_error (cert_from_string (state.client_cert stored)) cert <> None)
          (load (state.paired_clients cfg))).
Proof.
  rewrite get_client_via_ssl_nth. split.
  - intros client. rewrite find_if_found.
    split; intros (before & after & Hl & Hv & Hbefore);
      exists before, after; (split; [exact Hl|]).
    + split; [now apply paired_cert_verifies_true|].
      eapply Forall_impl; [exact Hbefore|].
      intros stored. apply paired_cert_verifies_false.
    + split; [now apply paired_cert_verifies_true|].
      eapply Forall_impl; [exact Hbefore|].
      intros stored. apply paired_cert_verifies_false.
  - rewrite find_if_deref_None.
    split; intros Hall; (eapply Forall_impl; [exact Hall|]);
      intros stored; apply paired_cert_verifies_false.
Qed.

(** C10.  The overload that takes the certificate as a PEM string returns
    what the overload that takes a parsed certificate returns on the result
    of [cert_from_string]. *)
Theorem get_client_via_ssl_overloads_agree (cfg : state.Config) (pem : string) :
  state.get_client_via_ssl_string cfg pem =
  state.get_client_via_ssl cfg (cert_from_string pem).
Proof. reflexivity. Qed.

(** A [pair] that is persisted, of a client that no stored certificate
    verifies, appends the client to the snapshot: the order of the snapshot
    is the order of insertion. *)
Lemma pair_appends (cfg : state.Config) (client : state.PairedClient) :
  state.get_client_via_ssl_string cfg (state.client_cert client) = None ->
  state.pair true cfg client =
  (state.Done,
   state.set_paired_clients cfg
     (Atom (load (state.paired_clients cfg) ++ [client]))).
Proof. intros Hnone. unfold state.pair. now rewrite Hnone. Qed.

Lemma pair_duplicate (persisted : bool) (cfg : state.Config)
  (client earlier : state.PairedClient) :
  state.get_client_via_ssl_string cfg (state.client_cert client) = Some earlier ->
  state.pair persisted cfg client = (state.Rejected, cfg).
Proof. intros Hsome. unfold state.pair. now rewrite Hsome. Qed.

(** A mutation whose rewrite of the state file fails reports [Transient] and
    leaves the configuration as it is. *)
Lemma pair_transient (persisted : bool) (cfg : state.Config) (client : state.PairedClient) :
  fst (state.pair persisted cfg client) = state.Transient ->
  persisted = false /\ snd (state.pair persisted cfg client) = cfg.
Proof.
  unfold state.pair.
  destruct (state.get_client_via_ssl_string cfg (state.client_cert client));
    [discriminate|].
  destruct persisted; [discriminate|]. auto.
Qed.

Lemma unpair_transient (persisted : bool) (cfg : state.Config) (client : state.PairedClient) :
  fst (state.unpair persisted cfg client) = state.Transient ->
  persisted = false /\ snd (state.unpair persisted cfg client) = cfg.
Proof. unfold state.unpair. destruct persisted; [discriminate|]. auto. Qed.

Lemma unpair_snapshot (cfg : state.Config) (client : state.PairedClient) :
  load (state.paired_clients (snd (state.unpair true cfg client))) =
  List.filter
    (fun stored =>
       negb (state.paired_cert_verifies (cert_from_string (state.client_cert client)) stored))
    (load (state.paired_clients cfg)).
Proof. reflexivity. Qed.

(** C1, as amended.  For a client whose certificate verifies against itself,
    after a [pair] that did not fail with [Transient] the lookup by that
    certificate returns the paired record for it: the record stored earlier
    that already matched the certificate (then [pair] rejected the
    duplicate), and otherwise the client just paired.  After an [unpair]
    that was carried out the lookup by the client's certificate returns
    none. *)
Theorem pair_unpair_get_client_via_ssl
  (persisted : bool) (cfg : state.Config) (client : state.PairedClient) :
  let cert := cert_from_string (state.client_cert client) in
  (verification_error cert cert = None ->
   fst (state.pair persisted cfg client) <> state.Transient ->
   state.get_client_via_ssl (snd (state.pair persisted cfg client)) cert =
   Some (match state.get_client_via_ssl cfg cert with
         | Some earlier => earlier
         | None => client
         end)) /\
  (fst (state.unpair persisted cfg client) = state.Done ->
   state.get_client_via_ssl (snd (state.unpair persisted cfg client)) cert = None).
Proof.
  intros cert. split.
  - intros Hself Hpaired.
    destruct (state.get_client_via_ssl cfg cert) as [earlier|] eqn:Hget.
    + rewrite (pair_duplicate persisted cfg client earlier); assumption.
    + destruct persisted.
      * rewrite pair_appends by exact Hget. simpl.
        rewrite get_client_via_ssl_nth. apply find_if_found.
        exists (load (state.paired_clients cfg)), [].
        split; [reflexivity|].
        split; [now apply paired_cert_verifies_true|].
        apply find_if_deref_None. now rewrite <- get_client_via_ssl_nth.
      * exfalso. apply Hpaired. unfold state.pair.
        unfold state.get_client_via_ssl_string. fold cert. now rewrite Hget.
  - intros Hdone.
    destruct persisted; [|discriminate Hdone].
    rewrite get_client_via_ssl_nth, find_if_deref_None, unpair_snapshot.
    apply List.Forall_forall. intros stored Hin.
    apply List.filter_In in Hin as [_ Hrejected].
    now apply negb_true_iff in Hrejected.
Qed.

End ConfigStoreFacts.

(** [pair] then [unpair] on the sample configuration, evaluated. *)
Lemma pair_unpair_get_client_via_ssl_sample :
  state.get_client_via_ssl (crypto := sample.self_signed)
    (snd (state.pair (crypto := sample.self_signed) true
            (sample.cfg [sample.alice] []) sample.bob))
    (state.client_cert sample.bob) = Some sample.bob /\
  state.get_client_via_ssl (crypto := sample.self_signed)
    (snd (state.unpair (crypto := sample.self_signed) true
            (sample.cfg [sample.alice; sample.bob] []) sample.bob))
    (state.client_cert sample.bob) = None.
Proof.
  destruct (pair_unpair_get_client_via_ssl (crypto := sample.self_signed) true
              (sample.cfg [sample.alice] []) sample.bob) as [Hpair _].
  destruct (pair_unpair_get_client_via_ssl (crypto := sample.self_signed) true
              (sample.cfg [sample.alice; sample.bob] []) sample.bob) as [_ Hunpair].
  split; [apply Hpair; [reflexivity|discriminate] | apply Hunpair; reflexivity].
Defined.

(** C1 as the specification states it fails in each of four ways.  A
    certificate that does not verify against itself is not found after it
    was paired; the client paired under a certificate that a stored record
    already carries is rejected, and the lookup returns the stored record
    instead; a [pair] whose rewrite of the state file fails leaves the
    client unpaired; and an [unpair] whose rewrite fails leaves the client
    paired. *)
Lemma pair_unpair_get_client_via_ssl_unamended_fails :
  (state.pair (crypto := sample.issued_by_ca) true (sample.cfg [] []) sample.leaf
   = (state.Done, sample.cfg [sample.leaf] []) /\
   state.get_client_via_ssl (crypto := sample.issued_by_ca)
     (snd (state.pair (crypto := sample.issued_by_ca) true (sample.cfg [] []) sample.leaf))
     (state.client_cert sample.leaf) = None) /\
  (state.get_client_via_ssl (crypto := sample.self_signed)
     (snd (state.pair (crypto := sample.self_signed) true
             (sample.cfg [sample.robert] []) sample.bob))
     (state.client_cert sample.bob) = Some sample.robert /\
   sample.robert <> sample.bob) /\
  (fst (state.pair (crypto := sample.self_signed) false (sample.cfg [] []) sample.alice)
   = state.Transient /\
   state.get_client_via_ssl (crypto := sample.self_signed)
     (snd (state.pair (crypto := sample.self_signed) false (sample.cfg [] []) sample.alice))
     (state.client_cert sample.alice) = None) /\
  (fst (state.unpair (crypto := sample.self_signed) false
          (sample.cfg [sample.alice] []) sample.alice)
   = state.Transient /\
   state.get_client_via_ssl (crypto := sample.self_signed)
     (snd (state.unpair (crypto := sample.self_signed) false
             (sample.cfg [sample.alice] []) sample.alice))
     (state.client_cert sample.alice) = Some sample.alice).
Proof.
  repeat split; try reflexivity. discriminate.
Qed.

(** The two lookups on sample data. *)
Example get_client_via_ssl_second :
  state.get_client_via_ssl (crypto := sample.self_signed)
    (sample.cfg [sample.alice; sample.bob] []) (state.client_cert sample.bob)
  = Some sample.bob.
Proof. reflexivity. Qed.

Example get_client_via_ssl_unknown :
  state.get_client_via_ssl (crypto := sample.self_signed)
    (sample.cfg [sample.alice] []) (state.client_cert sample.bob)
  = None.
Proof. reflexivity. Qed.

Example get_app_by_id_found :
  state.get_app_by_id
    (sample.cfg [] [sample.app_with_id "1"; sample.app_with_id "2"]) "2"
  = Returns (sample.app_with_id "2").
Proof. reflexivity. Qed.

Example get_app_by_id_absent :
  state.get_app_by_id
    (sample.cfg [] [sample.app_with_id "1"; sample.app_with_id "2"]) "3"
  = Throws (runtime_error "Unable to find app with id: 3").
Proof. reflexivity. Qed.

(** ** Construction of a stream session *)

Lemma lookup_app_fresh (h l : events.heap) (k : nat) :
  (h ++ l) !! (length h + k) = l !! k.
Proof.
  rewrite lookup_app_r by lia. f_equal. lia.
Qed.

(** The heap after construction is the heap before it followed by the six
    fresh cells, and the session points at them. *)
Lemma new_StreamSession_heap (a : events.StreamSession_args) (h : events.heap) :
  snd (events.new_StreamSession a h) = h ++ events.fresh_cells.
Proof.
  unfold events.new_StreamSession, events.make_shared, events.fresh_cells. simpl.
  repeat rewrite <- app_assoc. reflexivity.
Qed.

Lemma new_StreamSession_pointers (a : events.StreamSession_args) (h : events.heap) :
  let s := fst (events.new_StreamSession a h) in
  events.wayland_display s = length h + 0 /\
  events.mouse s = length h + 1 /\
  events.keyboard s = length h + 2 /\
  events.joypads s = length h + 3 /\
  events.pen_tablet s = length h + 4 /\
  events.touch_screen s = length h + 5.
Proof.
  unfold events.new_StreamSession, events.make_shared. simpl.
  repeat rewrite length_app. simpl. repeat split; lia.
Qed.

Lemma new_StreamSession_session_id (a : events.StreamSession_args) (h : events.heap) :
  events.session_id (fst (events.new_StreamSession a h)) = events.arg_session_id a.
Proof. reflexivity. Qed.

(** Construction leaves the cells of the sessions that exist untouched. *)
Lemma new_StreamSession_frame (a : events.StreamSession_args) (h : events.heap) (p : nat) :
  p < length h -> snd (events.new_StreamSession a h) !! p = h !! p.
Proof.
  intros Hp. rewrite new_StreamSession_heap. now apply lookup_app_l.
Qed.

(** Reading a cell of a session right after its construction: the pointer
    is the address of a fresh cell, which holds the initial value. *)
Ltac read_fresh_cell a h :=
  let Hptr := fresh "Hptr" in
  pose proof (new_StreamSession_pointers a h) as Hptr; cbv zeta in Hptr;
  unfold events.read_wayland_display, events.read_mouse, events.read_keyboard,
    events.read_joypads, events.read_pen_tablet, events.read_touch_screen;
  rewrite new_StreamSession_heap;
  let Hw := fresh in let Hm := fresh in let Hk := fresh in
  let Hj := fresh in let Hp := fresh in let Ht := fresh in
  destruct Hptr as (Hw & Hm & Hk & Hj & Hp & Ht);
  rewrite ?Hw, ?Hm, ?Hk, ?Hj, ?Hp, ?Ht, lookup_app_fresh; reflexivity.

(** C9.  In a newly constructed [StreamSession] the wayland display atom
    holds the null display, the mouse, keyboard, pen tablet and touch screen
    optionals are unset and the joypad atom holds the empty map, whatever the
    other members and the heap the session is built in. *)
Theorem new_StreamSession_cells_empty (a : events.StreamSession_args) (h : events.heap) :
  let s := fst (events.new_StreamSession a h) in
  let h' := snd (events.new_StreamSession a h) in
  events.read_wayland_display s h' = Some None /\
  events.read_mouse s h' = Some None /\
  events.read_keyboard s h' = Some None /\
  events.read_joypads s h' = Some ∅ /\
  events.read_pen_tablet s h' = Some None /\
  events.read_touch_screen s h' = Some None.
Proof.
  intros s h'. subst s h'. repeat split; read_fresh_cell a h.
Qed.

(** ** Input-device cells *)

(** A write addressed to the cell at [q], seen from the cell at [p] whose
    content [Hc] records: either the write is ignored, or it installs a
    device at [q], which is another address because it holds a cell of
    another type. *)
Ltac write_elsewhere q p Hc m :=
  destruct (_ !! q) as [[| [|] | [|] | | [|] | [|]]|] eqn:?;
  try (rewrite Hc; now destruct m);
  (destruct (decide (q = p)) as [Heq|Hne];
   [congruence | rewrite list_lookup_insert_ne by congruence]);
  rewrite Hc; now destruct m.

Ltac write_here Hc m :=
  rewrite Hc; destruct m as [?|]; [now rewrite Hc|];
  rewrite list_lookup_insert_eq; [reflexivity|];
  now apply lookup_lt_Some in Hc.

Lemma set_on_first_use_read_mouse s w h m :
  events.read_mouse s h = Some m ->
  events.read_mouse s (events.set_on_first_use s w h) =
  Some (match m with Some d => Some d | None => events.mouse_of w end).
Proof.
  unfold events.read_mouse. intros Hread.
  destruct (h !! events.mouse s) as [[]|] eqn:Hc; try discriminate.
  injection Hread as ->.
  destruct w; simpl.
  - write_here Hc m.
  - write_elsewhere (events.keyboard s) (events.mouse s) Hc m.
  - write_elsewhere (events.pen_tablet s) (events.mouse s) Hc m.
  - write_elsewhere (events.touch_screen s) (events.mouse s) Hc m.
Qed.

Lemma set_on_first_use_read_keyboard s w h m :
  events.read_keyboard s h = Some m ->
  events.read_keyboard s (events.set_on_first_use s w h) =
  Some (match m with Some d => Some d | None => events.keyboard_of w end).
Proof.
  unfold events.read_keyboard. intros Hread.
  destruct (h !! events.keyboard s) as [[]|] eqn:Hc; try discriminate.
  injection Hread as ->.
  destruct w; simpl.
  - write_elsewhere (events.mouse s) (events.keyboard s) Hc m.
  - write_here Hc m.
  - write_elsewhere (events.pen_tablet s) (events.keyboard s) Hc m.
  - write_elsewhere (events.touch_screen s) (events.keyboard s) Hc m.
Qed.

Lemma set_on_first_use_read_pen_tablet s w h m :
  events.read_pen_tablet s h = Some m ->
  events.read_pen_tablet s (events.set_on_first_use s w h) =
  Some (match m with Some d => Some d | None => events.pen_tablet_of w end).
Proof.
  unfold events.read_pen_tablet. intros Hread.
  destruct (h !! events.pen_tablet s) as [[]|] eqn:Hc; try discriminate.
  injection Hread as ->.
  destruct w; simpl.
  - write_elsewhere (events.mouse s) (events.pen_tablet s) Hc m.
  - write_elsewhere (events.keyboard s) (events.pen_tablet s) Hc m.
  - write_here Hc m.
  - write_elsewhere (events.touch_screen s) (events.pen_tablet s) Hc m.
Qed.

Lemma set_on_first_use_read_touch_screen s w h m :
  events.read_touch_screen s h = Some m ->
  events.read_touch_screen s (events.set_on_first_use s w h) =
  Some (match m with Some d => Some d | None => events.touch_screen_of w end).
Proof.
  unfold events.read_touch_screen. intros Hread.
  destruct (h !! events.touch_screen s) as [[]|] eqn:Hc; try discriminate.
  injection Hread as ->.
  destruct w; simpl.
  - write_elsewhere (events.mouse s) (events.touch_screen s) Hc m.
  - write_elsewhere (events.keyboard s) (events.touch_screen s) Hc m.
  - write_elsewhere (events.pen_tablet s) (events.touch_screen s) Hc m.
  - write_here Hc m.
Qed.

(** The same over a whole sequence of writes, for any cell that one write
    treats as above. *)
Section WriteOnce.
Context {A : Type}.
Variable read : events.StreamSession -> events.heap -> option (option A).
Variable proj : events.device_write -> option A.
Hypothesis read_step : forall s w h m,
  read s h = Some m ->
  read s (events.set_on_first_use s w h) =
  Some (match m with Some d => Some d | None => proj w end).

Lemma run_writes_read s ws h m :
  read s h = Some m ->
  read s (events.run_writes s ws h) =
  Some (match m with Some d => Some d | None => events.first_of proj ws end).
Proof.
  revert h m. induction ws as [|w rest IH]; intros h m Hread; simpl.
  - rewrite Hread. now destruct m.
  - unfold events.run_writes in *. simpl.
    rewrite (IH _ _ (read_step s w h m Hread)).
    destruct m; [reflexivity|]. now destruct (proj w).
Qed.

Lemma run_writes_stable s ws h d :
  read s h = Some (Some d) ->
  read s (events.run_writes s ws h) = Some (Some d).
Proof. intros Hread. now rewrite (run_writes_read s ws h (Some d)). Qed.

End WriteOnce.

Lemma run_writes_app s ws later h :
  events.run_writes s (ws ++ later) h =
  events.run_writes s later (events.run_writes s ws h).
Proof. unfold events.run_writes. apply fold_left_app. Qed.

(** A write to a cell that holds a device leaves the whole heap as it is. *)
Lemma set_on_first_use_installed s w h :
  match w with
  | events.write_mouse _ => exists d, events.read_mouse s h = Some (Some d)
  | events.write_keyboard _ => exists d, events.read_keyboard s h = Some (Some d)
  | events.write_pen_tablet _ => exists d, events.read_pen_tablet s h = Some (Some d)
  | events.write_touch_screen _ => exists d, events.read_touch_screen s h = Some (Some d)
  end ->
  events.set_on_first_use s w h = h.
Proof.
  destruct w; simpl; intros [d Hread];
    unfold events.read_mouse, events.read_keyboard, events.read_pen_tablet,
      events.read_touch_screen in Hread;
    match goal with
    | |- context [h !! ?p] => destruct (h !! p) as [[]|]; try discriminate
    end;
    injection Hread as ->; reflexivity.
Qed.

(** A sequence that holds a write to the cell of [w] holds a first device
    for that cell. *)
Lemma same_cell_first_of (w : events.device_write) (ws : list events.device_write) :
  existsb (events.same_cell w) ws = true ->
  match w with
  | events.write_mouse _ => exists d, events.first_of events.mouse_of ws = Some d
  | events.write_keyboard _ => exists d, events.first_of events.keyboard_of ws = Some d
  | events.write_pen_tablet _ => exists d, events.first_of events.pen_tablet_of ws = Some d
  | events.write_touch_screen _ => exists d, events.first_of events.touch_screen_of ws = Some d
  end.
Proof.
  induction ws as [|w' rest IH]; simpl; [discriminate|].
  intros Hex. apply orb_true_iff in Hex as [Hsame|Hrest].
  - destruct w, w'; simpl in *; try discriminate; eauto.
  - specialize (IH Hrest). destruct w, w'; simpl; eauto.
Qed.

(** C6.  For a session and any sequence of writes to its input-device cells
    since its construction: each of the four cells holds the device of the
    first write addressed to it (first writer wins) and is empty when there
    was none; a write addressed to a cell that was written before leaves the
    heap, and so the cell, unchanged; and whatever writes follow, a cell that
    holds a device still holds that one, for every reader of the session's
    shared cells. *)
Theorem input_device_cells_write_once
  (a : events.StreamSession_args) (h : events.heap) (ws : list events.device_write) :
  let s := fst (events.new_StreamSession a h) in
  let h1 := events.run_writes s ws (snd (events.new_StreamSession a h)) in
  (events.read_mouse s h1 = Some (events.first_of events.mouse_of ws) /\
   events.read_keyboard s h1 = Some (events.first_of events.keyboard_of ws) /\
   events.read_pen_tablet s h1 = Some (events.first_of events.pen_tablet_of ws) /\
   events.read_touch_screen s h1 = Some (events.first_of events.touch_screen_of ws)) /\
  (forall w,
      existsb (events.same_cell w) ws = true ->
      events.set_on_first_use s w h1 = h1) /\
  (forall later,
      let h2 := events.run_writes s later h1 in
      (forall d, events.first_of events.mouse_of ws = Some d ->
                 events.read_mouse s h2 = Some (Some d)) /\
      (forall d, events.first_of events.keyboard_of ws = Some d ->
                 events.read_keyboard s h2 = Some (Some d)) /\
      (forall d, events.first_of events.pen_tablet_of ws = Some d ->
                 events.read_pen_tablet s h2 = Some (Some d)) /\
      (forall d, events.first_of events.touch_screen_of ws = Some d ->
                 events.read_touch_screen s h2 = Some (Some d))).
Proof.
  intros s h1.
  assert (Hm : events.read_mouse s (snd (events.new_StreamSession a h)) = Some None)
    by (subst s; read_fresh_cell a h).
  assert (Hk : events.read_keyboard s (snd (events.new_StreamSession a h)) = Some None)
    by (subst s; read_fresh_cell a h).
  assert (Hp : events.read_pen_tablet s (snd (events.new_StreamSession a h)) = Some None)
    by (subst s; read_fresh_cell a h).
  assert (Ht : events.read_touch_screen s (snd (events.new_StreamSession a h)) = Some None)
    by (subst s; read_fresh_cell a h).
  assert (Hreads :
    events.read_mouse s h1 = Some (events.first_of events.mouse_of ws) /\
    events.read_keyboard s h1 = Some (events.first_of events.keyboard_of ws) /\
    events.read_pen_tablet s h1 = Some (events.first_of events.pen_tablet_of ws) /\
    events.read_touch_screen s h1 = Some (events.first_of events.touch_screen_of ws)).
  { subst h1. repeat split.
    - now rewrite (run_writes_read _ _ set_on_first_use_read_mouse s ws _ None).
    - now rewrite (run_writes_read _ _ set_on_first_use_read_keyboard s ws _ None).
    - now rewrite (run_writes_read _ _ set_on_first_use_read_pen_tablet s ws _ None).
    - now rewrite (run_writes_read _ _ set_on_first_use_read_touch_screen s ws _ None). }
  destruct Hreads as (Rm & Rk & Rp & Rt).
  split; [auto|split].
  - intros w Hex. apply set_on_first_use_installed.
    apply same_cell_first_of in Hex.
    destruct w; destruct Hex as [d Hd]; exists d; congruence.
  - intros later h2. subst h2. repeat split; intros d Hd.
    + apply (run_writes_stable _ _ set_on_first_use_read_mouse). congruence.
    + apply (run_writes_stable _ _ set_on_first_use_read_keyboard). congruence.
    + apply (run_writes_stable _ _ set_on_first_use_read_pen_tablet). congruence.
    + apply (run_writes_stable _ _ set_on_first_use_read_touch_screen). congruence.
Qed.

(** The sample session after a keyboard write and two mouse writes: the first
    mouse is installed, and stays so under a further mouse write. *)
Lemma input_device_cells_write_once_sample :
  events.read_mouse
    (fst (events.new_StreamSession sample.session_args []))
    (events.run_writes (fst (events.new_StreamSession sample.session_args []))
       sample.writes (snd (events.new_StreamSession sample.session_args [])))
  = Some (Some sample.first_mouse) /\
  events.set_on_first_use
    (fst (events.new_StreamSession sample.session_args []))
    (events.write_mouse sample.second_mouse)
    (events.run_writes (fst (events.new_StreamSession sample.session_args []))
       sample.writes (snd (events.new_StreamSession sample.session_args [])))
  = events.run_writes (fst (events.new_StreamSession sample.session_args []))
      sample.writes (snd (events.new_StreamSession sample.session_args [])) /\
  events.read_mouse
    (fst (events.new_StreamSession sample.session_args []))
    (events.run_writes (fst (events.new_StreamSession sample.session_args []))
       [events.write_mouse sample.second_mouse]
       (events.run_writes (fst (events.new_StreamSession sample.session_args []))
          sample.writes (snd (events.new_StreamSession sample.session_args []))))
  = Some (Some sample.first_mouse).
Proof.
  destruct (input_device_cells_write_once sample.session_args [] sample.writes)
    as ((Hmouse & _) & Hlater_write & Hstable).
  split; [exact Hmouse|split].
  - apply Hlater_write. reflexivity.
  - apply (Hstable [events.write_mouse sample.second_mouse]). reflexivity.
Defined.

(** ** Session ids *)

(** The id that the [k]-th successful launch of a registry gets, counting
    from zero: the counter wraps around at [2^64]. *)
Lemma size_t_modulus_pos : (0 < registry.size_t_modulus)%N.
Proof. reflexivity. Qed.

Lemma wrapped_succ (n : nat) :
  ((N.of_nat n mod registry.size_t_modulus + 1) mod registry.size_t_modulus)%N =
  (N.of_nat (S n) mod registry.size_t_modulus)%N.
Proof.
  rewrite Nat2N.inj_succ, <- N.add_1_r.
  apply N.Div0.add_mod_idemp_l.
Qed.





Section RegistryFacts.
Context `{crypto : X509}.

(** A launch either fails and leaves the registry as it is, or publishes one
    session whose id is the current value of the counter, and advances the
    counter modulo [2^64]. *)
Lemma launch_cases (cfg : state.Config) (req : registry.LaunchRequest) (r : registry.Registry) :
  (exists e, registry.launch cfg req r = (inl e, r)) \/
  (exists session r',
      registry.launch cfg req r = (inr session, r') /\
      events.session_id session = registry.next_session_id r /\
      registry.next_session_id r' =
        ((registry.next_session_id r + 1) mod registry.size_t_modulus)%N /\
      registry.published r' = registry.published r ++ [session]).
Proof.
  unfold registry.launch.
  destruct (state.get_client_via_ssl_string cfg (registry.req_client_cert req)) as [client|];
    [|left; eauto].
  destruct (state.get_app_by_id cfg (registry.req_app_id req)) as [app|e];
    [|left; eauto].
  right.
  match goal with
  | |- context [events.new_StreamSession ?a ?h] =>
      pose proof (new_StreamSession_session_id a h) as Hid;
      destruct (events.new_StreamSession a h) as [session h']
  end.
  cbn [fst events.arg_session_id] in Hid.
  eexists _, _. split; [reflexivity|].
  cbn [registry.next_session_id registry.published]. auto.
Qed.

Lemma step_counts_launches (cfg : state.Config) (r : registry.Registry) (o : registry.operation) :
  registry.counts_launches r -> registry.counts_launches (registry.step cfg r o).
Proof.
  intros [Hids Hnext]. destruct o as [req|ev]; [|split; assumption].
  unfold registry.step.
  destruct (launch_cases cfg req r)
    as [[e ->]|(session & r' & -> & Hid & Hnext' & Hpub)];
    cbn [snd]; [split; assumption|].
  unfold registry.counts_launches, registry.allocated in *.
  rewrite Hpub, length_app, map_app. cbn [length map].
  rewrite Nat.add_1_r, seq_S, map_app. cbn [map].
  split.
  - rewrite Hids, Hid, Hnext. reflexivity.
  - rewrite Hnext', Hnext. apply wrapped_succ.
Qed.

Lemma run_counts_launches (cfg : state.Config) (ops : list registry.operation) (r : registry.Registry) :
  registry.counts_launches r -> registry.counts_launches (registry.run cfg ops r).
Proof.
  revert r. induction ops as [|o rest IH]; intros r Hr; [exact Hr|].
  apply IH, step_counts_launches, Hr.
Qed.

Lemma empty_counts_launches (bus : nat) : registry.counts_launches (registry.empty_registry bus).
Proof. split; reflexivity. Qed.


(** Every allocated id is a value of a [std::size_t]. *)
Lemma allocated_fit_size_t
  (cfg : state.Config) (ops : list registry.operation) (bus : nat) :
  Forall (fun sid => (sid < registry.size_t_modulus)%N)
         (registry.allocated (registry.run cfg ops (registry.empty_registry bus))).
Proof.
  destruct (run_counts_launches cfg ops _ (empty_counts_launches bus)) as [-> _].
  apply List.Forall_forall. intros sid Hin.
  apply List.in_map_iff in Hin as (k & <- & _).
  apply N.mod_lt. pose proof size_t_modulus_pos. lia.
Qed.



End RegistryFacts.

(** A launch, the stop of its session and a second launch by the same
    client: the second session gets a new id. *)
Example launch_stop_launch :
  registry.allocated
    (registry.run (crypto := sample.self_signed)
       (sample.cfg [sample.alice] [sample.app_with_id "1"])
       [registry.do_launch (sample.request "1" (state.client_cert sample.alice));
        registry.do_stop {| events.stop_session_id := 0 |};
        registry.do_launch (sample.request "1" (state.client_cert sample.alice))]
       (registry.empty_registry 0))
  = [0%N; 1%N].
Proof. vm_compute. reflexivity. Qed.



(** * Further properties of the sources *)

(** ** Lookups over a snapshot made of two parts *)

Lemma find_if_app {A : Type} (pred : A -> bool) (l1 l2 : list A) :
  nth_error (l1 ++ l2) (find_if pred (l1 ++ l2)) =
  match nth_error l1 (find_if pred l1) with
  | Some x => Some x
  | None => nth_error l2 (find_if pred l2)
  end.
Proof.
  induction l1 as [|a rest IH]; simpl; [reflexivity|].
  destruct (pred a); [reflexivity|exact IH].
Qed.

(** Dropping elements that do not satisfy the predicate leaves the first
    match as it is. *)
Lemma find_if_filter {A : Type} (pred keep : A -> bool) (l : list A) :
  Forall (fun x => pred x = true -> keep x = true) l ->
  nth_error (List.filter keep l) (find_if pred (List.filter keep l)) =
  nth_error l (find_if pred l).
Proof.
  induction 1 as [|a rest Ha Hrest IH]; simpl; [reflexivity|].
  destruct (pred a) eqn:Hpred.
  - rewrite (Ha eq_refl). simpl. now rewrite Hpred.
  - destruct (keep a); simpl; [rewrite Hpred|]; exact IH.
Qed.

(** X1.  When the apps snapshot of a configuration is the snapshot of a
    first configuration followed by that of a second, [get_app_by_id]
    returns what it returns on the first and, when it throws there, does
    what it does on the second: apps that come later never change the
    result of a lookup that succeeds. *)
Theorem get_app_by_id_app (cfg cfg1 cfg2 : state.Config) (app_id : string) :
  load (state.apps cfg) = load (state.apps cfg1) ++ load (state.apps cfg2) ->
  state.get_app_by_id cfg app_id =
  match state.get_app_by_id cfg1 app_id with
  | Returns app => Returns app
  | Throws _ => state.get_app_by_id cfg2 app_id
  end.
Proof.
  intros Happs. rewrite !get_app_by_id_nth, Happs, find_if_app.
  now destruct (nth_error (load (state.apps cfg1)) _).
Qed.

Lemma get_app_by_id_app_sample :
  state.get_app_by_id
    (sample.cfg [] [sample.app_with_id "1"; sample.app_with_id "2"; sample.app_with_id "1"]) "2"
  = Returns (sample.app_with_id "2").
Proof.
  exact (get_app_by_id_app
           (sample.cfg [] [sample.app_with_id "1"; sample.app_with_id "2"; sample.app_with_id "1"])
           (sample.cfg [] [sample.app_with_id "1"])
           (sample.cfg [] [sample.app_with_id "2"; sample.app_with_id "1"])
           "2" eq_refl).
Defined.

Section LookupFacts.
Context `{crypto : X509}.

(** X2.  The same for the paired clients: on a snapshot made of two parts,
    [get_client_via_ssl] returns the match of the first part and looks into
    the second part only when the first has none. *)
Theorem get_client_via_ssl_app (cfg cfg1 cfg2 : state.Config) (cert : x509_ptr) :
  load (state.paired_clients cfg) =
  load (state.paired_clients cfg1) ++ load (state.paired_clients cfg2) ->
  state.get_client_via_ssl cfg cert =
  match state.get_client_via_ssl cfg1 cert with
  | Some client => Some client
  | None => state.get_client_via_ssl cfg2 cert
  end.
Proof.
  intros Hclients. rewrite !get_client_via_ssl_nth, Hclients. apply find_if_app.
Qed.

(** X3.  Removing stored clients from the snapshot changes the result of
    [get_client_via_ssl] for a certificate only if a removed client's
    certificate verifies against it: when every stored client that verifies
    is kept, the lookup returns what it returned before. *)
Theorem get_client_via_ssl_filter
  (cfg cfg' : state.Config) (keep : state.PairedClient -> bool) (cert : x509_ptr) :
  load (state.paired_clients cfg') = List.filter keep (load (state.paired_clients cfg)) ->
  Forall (fun stored =>
            verification_error (cert_from_string (state.client_cert stored)) cert = None ->
            keep stored = true)
         (load (state.paired_clients cfg)) ->
  state.get_client_via_ssl cfg' cert = state.get_client_via_ssl cfg cert.
Proof.
  intros Hfiltered Hkept. rewrite !get_client_via_ssl_nth, Hfiltered.
  apply find_if_filter.
  eapply Forall_impl; [exact Hkept|]. simpl.
  intros stored Hkeep Hverifies. apply Hkeep.
  now apply paired_cert_verifies_true.
Qed.

Lemma find_if_same_certs (cert : x509_ptr) (l1 l2 : list state.PairedClient) :
  map state.client_cert l1 = map state.client_cert l2 ->
  find_if (state.paired_cert_verifies cert) l1 =
  find_if (state.paired_cert_verifies cert) l2.
Proof.
  revert l2. induction l1 as [|a rest IH]; intros [|b rest'] Hcerts;
    simpl in *; try discriminate; [reflexivity|].
  injection Hcerts as Hcert Hrest.
  unfold state.paired_cert_verifies at 1 3. rewrite Hcert.
  destruct (verification_error _ cert); [|reflexivity].
  f_equal. now apply IH.
Qed.

(** X4.  Which stored client [get_client_via_ssl] matches depends on the
    stored certificates alone: two snapshots that hold the same certificates
    in the same order give matches at the same position, whatever the other
    fields of the stored clients are, so the certificates of the two results
    agree. *)
Theorem get_client_via_ssl_same_certs (cfg1 cfg2 : state.Config) (cert : x509_ptr) :
  map state.client_cert (load (state.paired_clients cfg1)) =
  map state.client_cert (load (state.paired_clients cfg2)) ->
  find_if (state.paired_cert_verifies cert) (load (state.paired_clients cfg1)) =
  find_if (state.paired_cert_verifies cert) (load (state.paired_clients cfg2)) /\
  option_map state.client_cert (state.get_client_via_ssl cfg1 cert) =
  option_map state.client_cert (state.get_client_via_ssl cfg2 cert).
Proof.
  intros Hcerts. pose proof (find_if_same_certs cert _ _ Hcerts) as Hpos.
  split; [exact Hpos|].
  rewrite !get_client_via_ssl_nth, Hpos.
  rewrite <- !nth_error_map, Hcerts. reflexivity.
Qed.

End LookupFacts.

Lemma get_client_via_ssl_app_sample :
  state.get_client_via_ssl (crypto := sample.self_signed)
    (sample.cfg [sample.alice; sample.bob] []) (state.client_cert sample.bob)
  = Some sample.bob.
Proof.
  exact (get_client_via_ssl_app (crypto := sample.self_signed)
           (sample.cfg [sample.alice; sample.bob] [])
           (sample.cfg [sample.alice] []) (sample.cfg [sample.bob] [])
           (state.client_cert sample.bob) eq_refl).
Defined.

(** Removing alice does not change whom bob's certificate resolves to. *)
Lemma get_client_via_ssl_filter_sample :
  state.get_client_via_ssl (crypto := sample.self_signed)
    (sample.cfg [sample.bob] []) (state.client_cert sample.bob)
  = state.get_client_via_ssl (crypto := sample.self_signed)
      (sample.cfg [sample.alice; sample.bob] []) (state.client_cert sample.bob).
Proof.
  apply (get_client_via_ssl_filter (crypto := sample.self_signed)
           (sample.cfg [sample.alice; sample.bob] []) (sample.cfg [sample.bob] [])
           (fun stored => String.eqb (state.client_id stored) "bob")
           (state.client_cert sample.bob)).
  - reflexivity.
  - repeat constructor; simpl; discriminate.
Defined.

Lemma get_client_via_ssl_same_certs_sample :
  find_if (state.paired_cert_verifies (crypto := sample.self_signed) (state.client_cert sample.bob))
    [sample.alice; sample.bob] =
  find_if (state.paired_cert_verifies (crypto := sample.self_signed) (state.client_cert sample.bob))
    [sample.alice;
     {| state.client_id := "robert";
        state.client_cert := state.client_cert sample.bob;
        state.app_state_folder := "/tmp";
        state.run_uid := 0;
        state.run_gid := 0 |}] /\
  Some (state.client_cert sample.bob) = Some (state.client_cert sample.bob).
Proof.
  exact (get_client_via_ssl_same_certs (crypto := sample.self_signed)
           (sample.cfg [sample.alice; sample.bob] [])
           (sample.cfg [sample.alice;
                        {| state.client_id := "robert";
                           state.client_cert := state.client_cert sample.bob;
                           state.app_state_folder := "/tmp";
                           state.run_uid := 0;
                           state.run_gid := 0 |}] [])
           (state.client_cert sample.bob) eq_refl).
Defined.

(** ** What the lookup of a client writes to the log *)

Section LoggedLookup.
Context `{crypto : X509}.

Lemma find_if_logged_paired (cert : x509_ptr) (l : list state.PairedClient) :
  find_if_logged (state.paired_cert_verifies_logged cert) l =
  (find_if (state.paired_cert_verifies cert) l,
   omap (state.verification_line cert) (take (find_if (state.paired_cert_verifies cert) l) l)).
Proof.
  induction l as [|a rest IH]; simpl; [reflexivity|].
  rewrite IH.
  unfold state.paired_cert_verifies_logged, state.paired_cert_verifies.
  destruct (verification_error (cert_from_string (state.client_cert a)) cert) as [error|] eqn:Ha;
    simpl; [|reflexivity].
  unfold state.verification_line. simpl. now rewrite Ha.
Qed.

Lemma omap_verification_line_length (cert : x509_ptr) (l : list state.PairedClient) :
  length (omap (state.verification_line cert)
            (take (find_if (state.paired_cert_verifies cert) l) l)) =
  find_if (state.paired_cert_verifies cert) l.
Proof.
  induction l as [|a rest IH]; simpl; [reflexivity|].
  unfold state.paired_cert_verifies at 1 3.
  destruct (verification_error (cert_from_string (state.client_cert a)) cert) eqn:Ha;
    simpl; [|reflexivity].
  unfold state.verification_line in *. simpl. rewrite Ha. simpl. f_equal. exact IH.
Qed.

(** X5.  [get_client_via_ssl] verifies the stored clients in snapshot order
    and stops at the first match: it returns the result of the lookup and
    writes exactly one [trace] line, carrying the verification error, for
    each stored client that precedes the position [find_if] returns, in that
    order, and no line for the matched client or for any client after it. *)
Theorem get_client_via_ssl_logged_lines (cfg : state.Config) (cert : x509_ptr) :
  let clients := load (state.paired_clients cfg) in
  let position := find_if (state.paired_cert_verifies cert) clients in
  fst (state.get_client_via_ssl_logged cfg cert) = state.get_client_via_ssl cfg cert /\
  snd (state.get_client_via_ssl_logged cfg cert) =
    omap (state.verification_line cert) (take position clients) /\
  length (snd (state.get_client_via_ssl_logged cfg cert)) = position.
Proof.
  intros clients position.
  unfold state.get_client_via_ssl_logged, state.get_client_via_ssl.
  fold clients. rewrite find_if_logged_paired. fold position. simpl.
  repeat split. apply omap_verification_line_length.
Qed.

End LoggedLookup.

(** Bob is stored behind alice: the lookup of bob's certificate writes the
    line of alice's failed verification and nothing else. *)
Example get_client_via_ssl_logged_second :
  state.get_client_via_ssl_logged (crypto := sample.self_signed)
    (sample.cfg [sample.alice; sample.bob; sample.alice] []) (state.client_cert sample.bob)
  = (Some sample.bob,
     [(logs.trace,
       "X509 certificate verification error: unable to get local issuer certificate")]).
Proof. reflexivity. Qed.

(** ** Sessions do not share cells *)

Lemma new_StreamSession_length (a : events.StreamSession_args) (h : events.heap) :
  length (snd (events.new_StreamSession a h)) = length h + 6.
Proof. rewrite new_StreamSession_heap, length_app. reflexivity. Qed.

Lemma new_StreamSession_cell_pointers (a : events.StreamSession_args) (h : events.heap) :
  events.cell_pointers (fst (events.new_StreamSession a h)) =
  [length h + 0; length h + 1; length h + 2; length h + 3; length h + 4; length h + 5].
Proof.
  pose proof (new_StreamSession_pointers a h) as Hptr. cbv zeta in Hptr.
  destruct Hptr as (Hw & Hm & Hk & Hj & Hp & Ht).
  unfold events.cell_pointers. now rewrite Hw, Hm, Hk, Hj, Hp, Ht.
Qed.

(** X6.  A session built after another one shares no cell with it: the
    twelve addresses the two sessions hold are pairwise distinct, none of
    them is an address of the heap that existed before, and building the
    second session leaves every cell of the first as it was. *)
Theorem new_StreamSession_isolated (a1 a2 : events.StreamSession_args) (h : events.heap) :
  let s1 := fst (events.new_StreamSession a1 h) in
  let h1 := snd (events.new_StreamSession a1 h) in
  let s2 := fst (events.new_StreamSession a2 h1) in
  let h2 := snd (events.new_StreamSession a2 h1) in
  NoDup (events.cell_pointers s1 ++ events.cell_pointers s2) /\
  Forall (fun p => length h <= p) (events.cell_pointers s1 ++ events.cell_pointers s2) /\
  Forall (fun p => h2 !! p = h1 !! p) (events.cell_pointers s1).
Proof.
  intros s1 h1 s2 h2. subst s1 s2.
  rewrite !new_StreamSession_cell_pointers.
  fold h1. replace (length h1) with (length h + 6)
    by (subst h1; now rewrite new_StreamSession_length).
  split; [|split].
  - simpl. repeat (constructor; [rewrite ?elem_of_cons, ?elem_of_nil; lia|]). constructor.
  - simpl. repeat (constructor; [lia|]). constructor.
  - repeat (constructor;
            [subst h2; apply new_StreamSession_frame; subst h1;
             rewrite new_StreamSession_length; lia|]).
    constructor.
Qed.

(** ** The controller types and the event tags *)

(** X7.  [get_controller_type] keeps the configured controller types apart:
    two configured types that it maps to the same controller type of the
    control protocol are the same configured type. *)
Theorem get_controller_type_injective (a b : config.ControllerType) :
  state.get_controller_type a = state.get_controller_type b -> a = b.
Proof.
  destruct a, b; simpl; intros Hsame; first [reflexivity|discriminate Hsame].
Qed.

Lemma get_controller_type_injective_sample : config.PS = config.PS.
Proof.
  exact (get_controller_type_injective config.PS config.PS eq_refl).
Defined.

(** X8.  The [event_type] tag identifies the event: no two alternatives of
    [EventsVariant] initialise [event_type] to the same string. *)
Theorem event_type_injective (e1 e2 : events.event_alternative) :
  events.event_type e1 = events.event_type e2 -> e1 = e2.
Proof.
  destruct e1, e2; simpl; intros Htag; first [reflexivity|discriminate Htag].
Qed.

Lemma event_type_injective_sample :
  events.alt_StopStreamEvent = events.alt_StopStreamEvent.
Proof.
  exact (event_type_injective events.alt_StopStreamEvent events.alt_StopStreamEvent eq_refl).
Defined.
